(** * Runtime cache router of the PWA service worker (src/app/sw.ts)

    The service worker hands an ordered list of runtime-caching rules
    (matcher, handler, options) and an offline fallback to the Serwist
    router.  This file embeds the rule list as it is written in
    [src/app/sw.ts], the alternative route list of the scaffolding
    template in [src/init.sh], and the router that evaluates them. *)

From Stdlib Require Import String Ascii List ZArith Bool Arith Lia.
Import ListNotations.
Open Scope string_scope.
Open Scope list_scope.

(** ** Strings: the few JavaScript string operations the matchers use *)

(** [s.startsWith(p)]. *)
Definition startsWith (s p : string) : bool := String.prefix p s.

Fixpoint string_rev (s : string) : string :=
  match s with
  | EmptyString => EmptyString
  | String c s' => String.append (string_rev s') (String c EmptyString)
  end.

(** [s] ends with [suf]: the [$]-anchored tail of a regular expression. *)
Definition endsWith (s suf : string) : bool :=
  String.prefix (string_rev suf) (string_rev s).

(** Case folding of the [i] flag (the URLs are ASCII). *)
Definition ascii_lower (c : ascii) : ascii :=
  let n := nat_of_ascii c in
  if ((65 <=? n) && (n <=? 90))%nat then ascii_of_nat (n + 32)%nat else c.

Fixpoint lower (s : string) : string :=
  match s with
  | EmptyString => EmptyString
  | String c s' => String (ascii_lower c) (lower s')
  end.

(** ** Requests and responses *)

(** The parts of a WHATWG [URL] the matchers read. *)
Record URL := mkURL { href : string; origin : string; pathname : string }.

Record Request := mkRequest {
  url : URL;
  destination : string;   (* request.destination, e.g. "document", "image" *)
  mode : string           (* request.mode, e.g. "navigate" *)
}.

Record Response := mkResponse { status : Z; body : string }.

(** ** Rules: [RuntimeCaching] entries *)

Inductive Handler := CacheFirst | NetworkFirst | StaleWhileRevalidate | NetworkOnly.

(** Times and durations are in seconds. *)
Record Expiration := mkExpiration { maxEntries : nat; maxAgeSeconds : Z }.

Record Options := mkOptions {
  cacheName : string;
  networkTimeoutSeconds : option Z;
  expiration : option Expiration;
  cacheableResponse : option (list Z)   (* cacheableResponse.statuses *)
}.

(** A [urlPattern] is either a regular expression tested on [url.href] or
    a callback on the request; both are given [self.location.origin]. *)
Record Rule := mkRule {
  urlPattern : string -> Request -> bool;
  handler : Handler;
  options : Options
}.

(** ** The rules of src/app/sw.ts *)

(** [/^https:\/\/fonts\.(?:googleapis|gstatic)\.com\/.*/i] *)
Definition google_fonts_re (s : string) : bool :=
  let s' := lower s in
  startsWith s' "https://fonts.googleapis.com/" ||
  startsWith s' "https://fonts.gstatic.com/".

(** [/^https:\/\/cdn\.jsdelivr\.net\/.*/i] *)
Definition jsdelivr_re (s : string) : bool :=
  startsWith (lower s) "https://cdn.jsdelivr.net/".

(** [/\.(png|jpg|jpeg|svg|gif|webp|avif)$/] (no [i] flag). *)
Definition image_re (s : string) : bool :=
  existsb (fun ext => endsWith s (String.append "." ext))
    ["png"; "jpg"; "jpeg"; "svg"; "gif"; "webp"; "avif"].

Definition year_seconds : Z := 60 * 60 * 24 * 365.

Definition google_fonts_rule : Rule := {|
  urlPattern := fun _ req => google_fonts_re (href (url req));
  handler := CacheFirst;
  options := {| cacheName := "google-fonts"; networkTimeoutSeconds := None;
                expiration := Some {| maxEntries := 10; maxAgeSeconds := year_seconds |};
                cacheableResponse := None |} |}.

Definition jsdelivr_rule : Rule := {|
  urlPattern := fun _ req => jsdelivr_re (href (url req));
  handler := CacheFirst;
  options := {| cacheName := "jsdelivr"; networkTimeoutSeconds := None;
                expiration := Some {| maxEntries := 10; maxAgeSeconds := year_seconds |};
                cacheableResponse := None |} |}.

(** The [urlPattern] callback of the [api-cache] rule, line by line. *)
Definition api_cache_urlPattern (self_origin : string) (u : URL) : bool :=
  let isSameOrigin := String.eqb self_origin (origin u) in
  if negb isSameOrigin then false else
  let p := pathname u in
  if startsWith p "/api/auth/" then false else
  if startsWith p "/api/" then true else
  false.

Definition api_cache_options : Options := {|
  cacheName := "api-cache";
  networkTimeoutSeconds := Some 3%Z;
  expiration := Some {| maxEntries := 50; maxAgeSeconds := 60 * 5 |};
  cacheableResponse := Some [0%Z; 200%Z] |}.

Definition api_cache_rule : Rule := {|
  urlPattern := fun o req => api_cache_urlPattern o (url req);
  handler := NetworkFirst;
  options := api_cache_options |}.

(** The [urlPattern] callback of the [images] rule. *)
Definition images_urlPattern (self_origin : string) (u : URL) : bool :=
  let isSameOrigin := String.eqb self_origin (origin u) in
  if negb isSameOrigin then false else
  let isImage := image_re (pathname u) in
  isImage.

Definition images_rule : Rule := {|
  urlPattern := fun o req => images_urlPattern o (url req);
  handler := CacheFirst;
  options := {| cacheName := "images"; networkTimeoutSeconds := None;
                expiration := Some {| maxEntries := 100; maxAgeSeconds := 60 * 60 * 24 * 30 |};
                cacheableResponse := None |} |}.

(** The rules written in sw.ts after [...defaultCache]. *)
Definition own_rules : list Rule :=
  [google_fonts_rule; jsdelivr_rule; api_cache_rule; images_rule].

(** [runtimeCaching: [...defaultCache, ...]]: the library's default rules
    ([defaultCache] of [@serwist/next/browser], not part of this
    repository) come first. *)
Definition runtimeCaching (defaultCache : list Rule) : list Rule :=
  defaultCache ++ own_rules.

(** The [apis] entry of the library's [defaultCache] ([@serwist/next]),
    which sw.ts spreads before its own rules.  The library is not part of
    this repository; the entry is modelled after its source: the matcher
    returns false for a cross-origin request or a pathname starting with
    [/api/auth/callback], true for a pathname starting with [/api/]; the
    handler is NetworkFirst on the cache [apis] with a 10 s network timeout
    and an expiration of 16 entries and 24 hours, and NetworkFirst's
    default cacheable filter keeps the statuses 0 and 200. *)
Definition defaultCache_apis_urlPattern (self_origin : string) (u : URL) : bool :=
  let sameOrigin := String.eqb self_origin (origin u) in
  let p := pathname u in
  if negb sameOrigin || startsWith p "/api/auth/callback" then false else
  if startsWith p "/api/" then true else
  false.

Definition defaultCache_apis : Rule := {|
  urlPattern := fun o req => defaultCache_apis_urlPattern o (url req);
  handler := NetworkFirst;
  options := {| cacheName := "apis"; networkTimeoutSeconds := Some 10%Z;
                expiration := Some {| maxEntries := 16; maxAgeSeconds := 60 * 60 * 24 |};
                cacheableResponse := Some [0%Z; 200%Z] |} |}.

(** [fallbacks.entries]: the offline document and its matcher. *)
Record FallbackEntry := mkFallback {
  fb_url : string;
  fb_matcher : Request -> bool
}.

Definition sw_fallbacks : list FallbackEntry :=
  [{| fb_url := "/offline";
      fb_matcher := fun req => String.eqb (destination req) "document" |}].

(** ** Cache storage *)

(** A cache entry: the stored response and its insertion time. *)
Record Entry := mkEntry { resp : Response; stored_at : Z }.

(** One named cache: entries keyed by request URL, most recent first. *)
Definition Cache := list (string * Entry).

(** The cache storage: caches by name. *)
Definition Caches := list (string * Cache).

Fixpoint cache_get (cs : Caches) (name : string) : Cache :=
  match cs with
  | [] => []
  | (n, c) :: cs' => if String.eqb n name then c else cache_get cs' name
  end.

Fixpoint cache_set (cs : Caches) (name : string) (c : Cache) : Caches :=
  match cs with
  | [] => [(name, c)]
  | (n, c0) :: cs' =>
      if String.eqb n name then (n, c) :: cs' else (n, c0) :: cache_set cs' name c
  end.

Fixpoint entry_lookup (c : Cache) (key : string) : option Entry :=
  match c with
  | [] => None
  | (k, e) :: c' => if String.eqb k key then Some e else entry_lookup c' key
  end.

Definition entry_remove (c : Cache) (key : string) : Cache :=
  filter (fun ke => negb (String.eqb (fst ke) key)) c.

(** ** The strategy engine

    Modelled from the spec: the router and its strategies belong to the
    Serwist library, which is not part of this repository; section 4.1 of
    the spec describes them, and this model follows it.  Expired entries
    count as evicted (max-age eviction), a put evicts beyond [maxEntries]
    (count eviction), and a rule with [cacheableResponse] stores only the
    listed statuses. *)

(** An entry is fresh when it is younger than [maxAgeSeconds]. *)
Definition fresh (o : Options) (now : Z) (e : Entry) : bool :=
  match expiration o with
  | Some x => (now <=? stored_at e + maxAgeSeconds x)%Z
  | None => true
  end.

(** Cache read: the fresh entry stored under [key], if any. *)
Definition cache_match (o : Options) (now : Z) (cs : Caches) (key : string)
  : option Response :=
  match entry_lookup (cache_get cs (cacheName o)) key with
  | Some e => if fresh o now e then Some (resp e) else None
  | None => None
  end.

Definition cacheable (o : Options) (r : Response) : bool :=
  match cacheableResponse o with
  | Some statuses => existsb (Z.eqb (status r)) statuses
  | None => true
  end.

(** Cache write, with count eviction. *)
Definition cache_put (o : Options) (now : Z) (cs : Caches) (key : string)
    (r : Response) : Caches :=
  if cacheable o r then
    let c := (key, {| resp := r; stored_at := now |})
             :: entry_remove (cache_get cs (cacheName o)) key in
    let c' := match expiration o with
              | Some x => firstn (maxEntries x) c
              | None => c
              end in
    cache_set cs (cacheName o) c'
  else cs.

(** What the network does with one fetch: it answers after [delay]
    seconds, or it fails (no network). *)
Inductive Net := Responds (delay : Z) (r : Response) | Fails.

(** Observable effects of one request. *)
Inductive Event := EvFetch | EvRead (name : string) | EvWrite (name : string).

Definition write_ev (o : Options) (r : Response) : list Event :=
  if cacheable o r then [EvWrite (cacheName o)] else [].

(** What the router gives back to the page. *)
Inductive Outcome := OResponse (r : Response) | OFallback (u : string) | OError.

(** The network answers in time for a [networkTimeoutSeconds] bound. *)
Definition in_time (o : Options) (delay : Z) : bool :=
  match networkTimeoutSeconds o with
  | Some t => (delay <? t)%Z
  | None => true
  end.

(** [execute(rule, request)] of the spec, on the cache key [key]. *)
Definition exec (h : Handler) (o : Options) (now : Z) (net : Net)
    (cs : Caches) (key : string) : Outcome * Caches * list Event :=
  let n := cacheName o in
  match h with
  | CacheFirst =>
      match cache_match o now cs key with
      | Some r => (OResponse r, cs, [EvRead n])
      | None =>
          match net with
          | Responds _ r =>
              (OResponse r, cache_put o now cs key r, EvRead n :: EvFetch :: write_ev o r)
          | Fails => (OError, cs, [EvRead n; EvFetch])
          end
      end
  | NetworkFirst =>
      let from_cache :=
        match cache_match o now cs key with
        | Some r => (OResponse r, cs, [EvFetch; EvRead n])
        | None => (OError, cs, [EvFetch; EvRead n])
        end in
      match net with
      | Responds d r =>
          if in_time o d
          then (OResponse r, cache_put o now cs key r, EvFetch :: write_ev o r)
          else from_cache
      | Fails => from_cache
      end
  | StaleWhileRevalidate =>
      match cache_match o now cs key with
      | Some a =>
          (* answer at once; the background fetch refreshes the entry *)
          match net with
          | Responds _ b => (OResponse a, cache_put o now cs key b,
                             EvRead n :: EvFetch :: write_ev o b)
          | Fails => (OResponse a, cs, [EvRead n; EvFetch])
          end
      | None =>
          match net with
          | Responds _ b => (OResponse b, cache_put o now cs key b,
                             EvRead n :: EvFetch :: write_ev o b)
          | Fails => (OError, cs, [EvRead n; EvFetch])
          end
      end
  | NetworkOnly =>
      match net with
      | Responds _ r => (OResponse r, cs, [EvFetch])
      | Fails => (OError, cs, [EvFetch])
      end
  end.

(** [match(request)]: the first rule whose matcher holds. *)
Fixpoint route (self_origin : string) (rules : list Rule) (req : Request)
  : option Rule :=
  match rules with
  | [] => None
  | r :: rs => if urlPattern r self_origin req then Some r else route self_origin rs req
  end.

(** A failed handler serves the first fallback entry whose matcher holds. *)
Fixpoint with_fallback (fbs : list FallbackEntry) (req : Request) (o : Outcome)
  : Outcome :=
  match o with
  | OError =>
      match fbs with
      | [] => OError
      | f :: fbs' => if fb_matcher f req then OFallback (fb_url f)
                     else with_fallback fbs' req o
      end
  | _ => o
  end.

(** One request through the router: a matched rule runs its strategy
    (with the fallbacks on failure); no match passes through to the
    network. *)
Definition handle (self_origin : string) (rules : list Rule)
    (fbs : list FallbackEntry) (now : Z) (net : Net) (cs : Caches)
    (req : Request) : Outcome * Caches * list Event :=
  match route self_origin rules req with
  | Some rule =>
      let '(o, cs', evs) := exec (handler rule) (options rule) now net cs (href (url req)) in
      (with_fallback fbs req o, cs', evs)
  | None =>
      match net with
      | Responds _ r => (OResponse r, cs, [EvFetch])
      | Fails => (OError, cs, [EvFetch])
      end
  end.

(** A sequence of requests, each with its time and network behaviour,
    threading the cache storage. *)
Fixpoint run (self_origin : string) (rules : list Rule) (fbs : list FallbackEntry)
    (steps : list (Z * Net * Request)) (cs : Caches)
  : list Outcome * Caches * list Event :=
  match steps with
  | [] => ([], cs, [])
  | (now, net, req) :: steps' =>
      let '(o, cs1, ev1) := handle self_origin rules fbs now net cs req in
      let '(os, cs2, ev2) := run self_origin rules fbs steps' cs1 in
      (o :: os, cs2, app ev1 ev2)
  end.

(** The service worker of src/app/sw.ts. *)
Definition sw_handle (self_origin : string) (defaultCache : list Rule) :=
  handle self_origin (runtimeCaching defaultCache) sw_fallbacks.

(** ** The service worker written by the scaffolding script (src/init.sh)

    [installSerwist] with [runtimeCaching: []] and no fallbacks, then three
    [registerRoute] calls, matched in registration order. *)

Definition month_seconds : Z := 60 * 60 * 24 * 30.

Definition pages_route : Rule := {|
  urlPattern := fun _ req => String.eqb (mode req) "navigate";
  handler := NetworkFirst;
  options := {| cacheName := "pages"; networkTimeoutSeconds := None;
                expiration := Some {| maxEntries := 10; maxAgeSeconds := month_seconds |};
                cacheableResponse := None |} |}.

Definition static_resources_route : Rule := {|
  urlPattern := fun _ req =>
    String.eqb (destination req) "script" || String.eqb (destination req) "style";
  handler := StaleWhileRevalidate;
  options := {| cacheName := "static-resources"; networkTimeoutSeconds := None;
                expiration := Some {| maxEntries := 60; maxAgeSeconds := month_seconds |};
                cacheableResponse := None |} |}.

Definition images_route : Rule := {|
  urlPattern := fun _ req => String.eqb (destination req) "image";
  handler := CacheFirst;
  options := {| cacheName := "images"; networkTimeoutSeconds := None;
                expiration := Some {| maxEntries := 100; maxAgeSeconds := month_seconds |};
                cacheableResponse := None |} |}.

Definition init_routes : list Rule := [pages_route; static_resources_route; images_route].

Definition init_handle (self_origin : string) :=
  handle self_origin init_routes [].

(** ** Concrete requests used below *)

Definition app_origin : string := "https://app.example.com".

Definition same_origin_req (p dest : string) : Request := {|
  url := {| href := String.append app_origin p; origin := app_origin; pathname := p |};
  destination := dest;
  mode := if String.eqb dest "document" then "navigate" else "cors" |}.

Definition ok_resp (b : string) : Response := {| status := 200; body := b |}.

Example route_login :
  route app_origin (runtimeCaching []) (same_origin_req "/api/auth/login" "") = None.
Proof. reflexivity. Qed.

Example route_users_handler :
  option_map (fun r => cacheName (options r))
    (route app_origin (runtimeCaching []) (same_origin_req "/api/users" ""))
  = Some "api-cache".
Proof. reflexivity. Qed.

Example image_png : images_urlPattern app_origin (url (same_origin_req "/a/logo.png" "image")) = true.
Proof. reflexivity. Qed.

Example image_PNG : images_urlPattern app_origin (url (same_origin_req "/a/logo.PNG" "image")) = false.
Proof. reflexivity. Qed.

Example fonts_upper : google_fonts_re "HTTPS://FONTS.GSTATIC.COM/s/x.woff2" = true.
Proof. reflexivity. Qed.

(** * Routing *)

(** The URL is one of the third-party font or CDN hosts. *)
Definition cdn_host (h : string) : bool := google_fonts_re h || jsdelivr_re h.

(** Rules that do not match a request can be skipped. *)
Lemma route_app_skip (o : string) (pre rules : list Rule) (req : Request) :
  Forall (fun r => urlPattern r o req = false) pre ->
  route o (pre ++ rules) req = route o rules req.
Proof.
  induction 1 as [|r pre Hr _ IH]; simpl; [reflexivity|].
  rewrite Hr. exact IH.
Qed.

(** [route] returns the first rule, in declaration order, whose matcher
    holds. *)
Lemma route_first_match (o : string) (rules : list Rule) (req : Request) (r : Rule) :
  route o rules req = Some r <->
  exists pre post, rules = pre ++ r :: post /\
    Forall (fun r' => urlPattern r' o req = false) pre /\
    urlPattern r o req = true.
Proof.
  split.
  - induction rules as [|r0 rs IH]; simpl; [discriminate|].
    case_eq (urlPattern r0 o req); intros Hm Hr.
    + injection Hr as <-. exists [], rs. auto.
    + destruct (IH Hr) as (pre & post & -> & Hpre & Hmr).
      exists (r0 :: pre), post. auto.
  - intros (pre & post & -> & Hpre & Hmr).
    rewrite route_app_skip by exact Hpre. simpl. rewrite Hmr. reflexivity.
Qed.

Lemma route_none_iff (o : string) (rules : list Rule) (req : Request) :
  route o rules req = None <-> Forall (fun r => urlPattern r o req = false) rules.
Proof.
  induction rules as [|r rs IH]; simpl.
  - split; auto.
  - case_eq (urlPattern r o req); intros Hm.
    + split; [discriminate|]. intros H. inversion H. congruence.
    + rewrite IH. split; [auto|]. intros H; inversion H; auto.
Qed.

(** An unmatched request passes through to the network, cache untouched. *)
Lemma handle_no_route (o : string) (rules : list Rule) (fbs : list FallbackEntry)
    (now : Z) (net : Net) (cs : Caches) (req : Request) :
  route o rules req = None ->
  handle o rules fbs now net cs req =
    (match net with Responds _ r => OResponse r | Fails => OError end, cs, [EvFetch]).
Proof.
  intros H. unfold handle. rewrite H. destruct net; reflexivity.
Qed.

(** The configured list tries the default rules first and the rules
    sw.ts writes only when none of them matches. *)
Lemma route_app (o : string) (l1 l2 : list Rule) (req : Request) :
  route o (l1 ++ l2) req =
    match route o l1 req with Some r => Some r | None => route o l2 req end.
Proof.
  induction l1 as [|r l1 IH]; simpl; [reflexivity|].
  destruct (urlPattern r o req); [reflexivity | exact IH].
Qed.

Lemma route_runtimeCaching (o : string) (dc : list Rule) (req : Request) :
  route o (runtimeCaching dc) req =
    match route o dc req with Some r => Some r | None => route o own_rules req end.
Proof. apply route_app. Qed.

(** A default list whose [apis] entry is the first to match. *)
Lemma route_defaultCache_apis (o : string) (pre post : list Rule) (req : Request) :
  Forall (fun r => urlPattern r o req = false) pre ->
  defaultCache_apis_urlPattern o (url req) = true ->
  route o (runtimeCaching (pre ++ defaultCache_apis :: post)) req = Some defaultCache_apis.
Proof.
  intros Hpre Hm. unfold runtimeCaching. rewrite <- app_assoc.
  rewrite route_app_skip by exact Hpre. simpl. rewrite Hm. reflexivity.
Qed.

(** A same-origin request to [/api/...] outside [/api/auth/callback]
    matches the [apis] entry. *)
Lemma defaultCache_apis_matches (o : string) (req : Request) :
  origin (url req) = o ->
  startsWith (pathname (url req)) "/api/auth/callback" = false ->
  startsWith (pathname (url req)) "/api/" = true ->
  defaultCache_apis_urlPattern o (url req) = true.
Proof.
  intros Ho Hc Ha. unfold defaultCache_apis_urlPattern.
  rewrite Ho, String.eqb_refl, Hc, Ha. reflexivity.
Qed.

(** The [apis] entry stores a timely 200 answer in the [apis] cache. *)
Lemma exec_defaultCache_apis_timely (now d : Z) (cs : Caches) (key : string) (b : Response) :
  (d < 10)%Z -> status b = 200%Z ->
  exec (handler defaultCache_apis) (options defaultCache_apis) now (Responds d b) cs key =
    (OResponse b, cache_put (options defaultCache_apis) now cs key b, [EvFetch; EvWrite "apis"]).
Proof.
  intros Hd Hb. unfold exec. cbn [handler options cacheName].
  unfold in_time. cbn [networkTimeoutSeconds options defaultCache_apis].
  replace (d <? 10)%Z with true by (symmetry; apply Z.ltb_lt; exact Hd).
  unfold write_ev, cacheable. cbn [cacheableResponse options defaultCache_apis].
  rewrite Hb. reflexivity.
Qed.

(** (C1) The api-cache rule of sw.ts is written to let [/api/auth/*] pass
    (its comment: to avoid caching auth responses) and to serve
    [/api/users] NetworkFirst from [api-cache], and among the rules sw.ts
    writes it does: a same-origin [/api/auth/login] matches none of them
    and [/api/users] goes to the api-cache rule.  But the rules are tried in
    order, first match winning, and sw.ts places them after
    [...defaultCache].  With the library's [apis] entry in the default list
    (no default entry before it matching), that entry takes both requests:
    [/api/auth/login] does not pass through, its timely 200 answer is
    stored in the [apis] cache, and [/api/users] never reaches
    [api-cache]. *)
Theorem C1_defaultCache_shadows_own_rules (o : string) (pre post : list Rule)
    (rl ru : Request) (now d : Z) (b : Response) (cs : Caches)
    (Hlo : origin (url rl) = o) (Hlp : pathname (url rl) = "/api/auth/login")
    (Hlh : cdn_host (href (url rl)) = false)
    (Huo : origin (url ru) = o) (Hup : pathname (url ru) = "/api/users")
    (Huh : cdn_host (href (url ru)) = false)
    (Hpl : Forall (fun r => urlPattern r o rl = false) pre)
    (Hpu : Forall (fun r => urlPattern r o ru = false) pre)
    (Hd : (d < 10)%Z) (Hb : status b = 200%Z) :
  route o own_rules rl = None /\
  route o own_rules ru = Some api_cache_rule /\
  route o (runtimeCaching (pre ++ defaultCache_apis :: post)) rl = Some defaultCache_apis /\
  route o (runtimeCaching (pre ++ defaultCache_apis :: post)) ru = Some defaultCache_apis /\
  sw_handle o (pre ++ defaultCache_apis :: post) now (Responds d b) cs rl =
    (OResponse b, cache_put (options defaultCache_apis) now cs (href (url rl)) b,
     [EvFetch; EvWrite "apis"]).
Proof.
  unfold cdn_host in Hlh, Huh.
  apply orb_false_elim in Hlh as [Hlf Hlj]. apply orb_false_elim in Huh as [Huf Huj].
  assert (Hl : route o (runtimeCaching (pre ++ defaultCache_apis :: post)) rl
               = Some defaultCache_apis).
  { apply route_defaultCache_apis; [exact Hpl|].
    apply defaultCache_apis_matches; [exact Hlo | rewrite Hlp; reflexivity
                                      | rewrite Hlp; reflexivity]. }
  split.
  { simpl. rewrite Hlf, Hlj. unfold api_cache_urlPattern, images_urlPattern.
    rewrite Hlo, Hlp, String.eqb_refl. reflexivity. }
  split.
  { simpl. rewrite Huf, Huj. unfold api_cache_urlPattern.
    rewrite Huo, Hup, String.eqb_refl. reflexivity. }
  split; [exact Hl|].
  split.
  { apply route_defaultCache_apis; [exact Hpu|].
    apply defaultCache_apis_matches; [exact Huo | rewrite Hup; reflexivity
                                      | rewrite Hup; reflexivity]. }
  unfold sw_handle, handle. rewrite Hl.
  rewrite exec_defaultCache_apis_timely by assumption.
  reflexivity.
Qed.

Lemma C1_defaultCache_shadows_own_rules_witness :
  let rl := same_origin_req "/api/auth/login" "" in
  let ru := same_origin_req "/api/users" "" in
  route app_origin own_rules rl = None /\
  route app_origin own_rules ru = Some api_cache_rule /\
  route app_origin (runtimeCaching [defaultCache_apis]) rl = Some defaultCache_apis /\
  route app_origin (runtimeCaching [defaultCache_apis]) ru = Some defaultCache_apis /\
  sw_handle app_origin [defaultCache_apis] 0 (Responds 1 (ok_resp "session")) [] rl =
    (OResponse (ok_resp "session"),
     cache_put (options defaultCache_apis) 0 [] (href (url rl)) (ok_resp "session"),
     [EvFetch; EvWrite "apis"]).
Proof.
  intros rl ru.
  exact (C1_defaultCache_shadows_own_rules app_origin [] [] rl ru 0 1 (ok_resp "session") []
           eq_refl eq_refl eq_refl eq_refl eq_refl eq_refl
           (Forall_nil _) (Forall_nil _) ltac:(lia) eq_refl).
Defined.

(** * Cache isolation *)

(** The event reads or writes the cache named [n]. *)
Definition touches (n : string) (e : Event) : bool :=
  match e with
  | EvFetch => false
  | EvRead n' | EvWrite n' => String.eqb n' n
  end.

Lemma cache_get_set (cs : Caches) (n m : string) (c : Cache) :
  cache_get (cache_set cs n c) m = if String.eqb n m then c else cache_get cs m.
Proof.
  induction cs as [|[n0 c0] cs IH]; simpl.
  - destruct (String.eqb n m); reflexivity.
  - case_eq (String.eqb n0 n); intros H0; simpl.
    + apply String.eqb_eq in H0; subst n0. destruct (String.eqb n m); reflexivity.
    + rewrite IH. case_eq (String.eqb n0 m); intros H1; [|reflexivity].
      apply String.eqb_eq in H1; subst n0.
      case_eq (String.eqb n m); intros H2; [|reflexivity].
      apply String.eqb_eq in H2; subst n. rewrite String.eqb_refl in H0. discriminate.
Qed.

Lemma cache_put_other (o : Options) (now : Z) (cs : Caches) (key m : string) (r : Response) :
  cacheName o <> m -> cache_get (cache_put o now cs key r) m = cache_get cs m.
Proof.
  intros Hne. unfold cache_put. destruct (cacheable o r); [|reflexivity].
  rewrite cache_get_set. apply String.eqb_neq in Hne. rewrite Hne. reflexivity.
Qed.

Lemma write_ev_other (o : Options) (r : Response) (m : string) :
  cacheName o <> m -> forallb (fun e => negb (touches m e)) (write_ev o r) = true.
Proof.
  intros Hne. unfold write_ev. destruct (cacheable o r); [|reflexivity].
  simpl. apply String.eqb_neq in Hne. rewrite Hne. reflexivity.
Qed.

(** A strategy only touches the cache its rule names. *)
Lemma exec_other (h : Handler) (o : Options) (now : Z) (net : Net) (cs : Caches)
    (key m : string) :
  cacheName o <> m ->
  let '(_, cs', evs) := exec h o now net cs key in
  cache_get cs' m = cache_get cs m /\ forallb (fun e => negb (touches m e)) evs = true.
Proof.
  intros Hne. pose proof (write_ev_other o) as Hw.
  assert (Hn : String.eqb (cacheName o) m = false) by (apply String.eqb_neq; exact Hne).
  unfold exec. destruct h;
    [destruct (cache_match o now cs key) as [a|] | | destruct (cache_match o now cs key) as [a|] | ];
    destruct net as [d r|];
    try destruct (in_time o d);
    try destruct (cache_match o now cs key) as [a|];
    simpl; rewrite ?Hn; simpl;
    rewrite ?cache_put_other by exact Hne; rewrite ?Hw by exact Hne; auto.
Qed.

Lemma route_in (o : string) (rules : list Rule) (req : Request) (r : Rule) :
  route o rules req = Some r -> In r rules /\ urlPattern r o req = true.
Proof.
  intros H. apply route_first_match in H as (pre & post & -> & _ & Hm).
  split; [apply in_or_app; right; left; reflexivity | exact Hm].
Qed.

(** A request whose rule does not name cache [m] leaves [m] alone. *)
Lemma handle_other (o : string) (rules : list Rule) (fbs : list FallbackEntry)
    (now : Z) (net : Net) (cs : Caches) (req : Request) (m : string) :
  (forall r, route o rules req = Some r -> cacheName (options r) <> m) ->
  let '(_, cs', evs) := handle o rules fbs now net cs req in
  cache_get cs' m = cache_get cs m /\ forallb (fun e => negb (touches m e)) evs = true.
Proof.
  intros Hr. unfold handle. destruct (route o rules req) as [r|] eqn:E.
  - pose proof (exec_other (handler r) (options r) now net cs (href (url req)) m
                  (Hr r eq_refl)) as Hx.
    destruct (exec (handler r) (options r) now net cs (href (url req)))
      as [[out cs'] evs]. exact Hx.
  - destruct net; simpl; auto.
Qed.

Lemma run_other (o : string) (rules : list Rule) (fbs : list FallbackEntry)
    (steps : list (Z * Net * Request)) (cs : Caches) (m : string) :
  Forall (fun s => forall r, route o rules (snd s) = Some r -> cacheName (options r) <> m)
    steps ->
  let '(_, cs', evs) := run o rules fbs steps cs in
  cache_get cs' m = cache_get cs m /\ forallb (fun e => negb (touches m e)) evs = true.
Proof.
  intros H. revert cs. induction H as [|[[now net] req] steps Hs _ IH]; intros cs; simpl.
  - auto.
  - pose proof (handle_other o rules fbs now net cs req m Hs) as Hh.
    destruct (handle o rules fbs now net cs req) as [[out cs1] ev1].
    specialize (IH cs1).
    destruct (run o rules fbs steps cs1) as [[os cs2] ev2].
    destruct Hh as [Hc1 He1], IH as [Hc2 He2].
    rewrite forallb_app, He1, He2. split; [congruence | reflexivity].
Qed.

(** An auth request never selects the api-cache rule, so the rule it
    selects (if any) names another cache. *)
Lemma auth_route_not_api (o : string) (dc : list Rule) (req : Request) (r : Rule) :
  Forall (fun r => cacheName (options r) <> "api-cache") dc ->
  startsWith (pathname (url req)) "/api/auth/" = true ->
  route o (runtimeCaching dc) req = Some r -> cacheName (options r) <> "api-cache".
Proof.
  intros Hdc Hp Hr. apply route_in in Hr as [Hin Hm].
  apply in_app_or in Hin as [Hin|Hin].
  - rewrite Forall_forall in Hdc. exact (Hdc r Hin).
  - simpl in Hin. destruct Hin as [<-|[<-|[<-|[<-|[]]]]]; simpl; try discriminate.
    simpl in Hm. unfold api_cache_urlPattern in Hm. rewrite Hp in Hm.
    destruct (negb _); discriminate.
Qed.

(** (C2) For every sequence of requests whose pathnames start with
    [/api/auth/] (same-origin or not), the router never reads from or
    writes to the cache named [api-cache], and that cache is left as it
    was.  The library's [defaultCache] rules name other caches. *)
Theorem C2_auth_never_touches_api_cache (o : string) (dc : list Rule)
    (steps : list (Z * Net * Request)) (cs : Caches)
    (Hdc : Forall (fun r => cacheName (options r) <> "api-cache") dc)
    (Hauth : Forall (fun s => startsWith (pathname (url (snd s))) "/api/auth/" = true) steps) :
  let '(_, cs', evs) := run o (runtimeCaching dc) sw_fallbacks steps cs in
  cache_get cs' "api-cache" = cache_get cs "api-cache" /\
  forallb (fun e => negb (touches "api-cache" e)) evs = true.
Proof.
  apply run_other. eapply Forall_impl; [|exact Hauth].
  intros s Hs r. apply auth_route_not_api; assumption.
Qed.

Definition auth_steps : list (Z * Net * Request) :=
  [(0%Z, Responds 0 (ok_resp "session"), same_origin_req "/api/auth/login" "");
   (1%Z, Fails, same_origin_req "/api/auth/session" "document")].

Lemma C2_auth_never_touches_api_cache_witness :
  Forall (fun s => startsWith (pathname (url (snd s))) "/api/auth/" = true) auth_steps /\
  (let '(_, cs', evs) := run app_origin (runtimeCaching []) sw_fallbacks auth_steps [] in
   cache_get cs' "api-cache" = cache_get [] "api-cache" /\
   forallb (fun e => negb (touches "api-cache" e)) evs = true).
Proof.
  split.
  - repeat constructor.
  - apply (C2_auth_never_touches_api_cache app_origin [] auth_steps []).
    + constructor.
    + repeat constructor.
Defined.

(** * Failures and the offline fallback *)

Definition outcome_of (x : Outcome * Caches * list Event) : Outcome := fst (fst x).

Lemma with_fallback_sw (req : Request) (o : Outcome) :
  with_fallback sw_fallbacks req o =
    match o with
    | OError => if String.eqb (destination req) "document" then OFallback "/offline" else OError
    | _ => o
    end.
Proof. destruct o; simpl; [reflexivity | reflexivity |].
  destruct (String.eqb (destination req) "document"); reflexivity.
Qed.


(** A navigation request whose rule has a fresh cache entry is served that
    entry: the fallback is not used. *)
Definition nav_users : Request := same_origin_req "/api/users" "document".







(** * NetworkFirst on the api-cache *)

(** The network gives no answer within the api-cache timeout (3 s). *)
Definition no_answer_in (t : Z) (net : Net) : Prop :=
  match net with
  | Fails => True
  | Responds d _ => (t <= d)%Z
  end.

Definition api_req : Request := same_origin_req "/api/users" "".

Definition api_stale : Caches :=
  [("api-cache", [(href (url api_req), {| resp := ok_resp "users"; stored_at := 0 |})])].

(** An entry stored 301 s ago is past [maxAgeSeconds = 300]: with a
    network slower than the timeout, the request fails even though the
    entry is in the api-cache. *)
Lemma C4_expired_entry_not_served :
  route app_origin (runtimeCaching []) api_req = Some api_cache_rule /\
  entry_lookup (cache_get api_stale "api-cache") (href (url api_req)) =
    Some {| resp := ok_resp "users"; stored_at := 0 |} /\
  outcome_of (sw_handle app_origin [] 301 (Responds 10 (ok_resp "new")) api_stale api_req)
    = OError.
Proof. repeat split; reflexivity. Qed.

(** (C4, amended) For a request the router hands to the NetworkFirst
    api-cache rule, if the network gives no answer within 3 seconds and
    the api-cache holds an entry for the request stored at most 300
    seconds ([maxAgeSeconds]) ago, the router returns that entry, not an
    error, and leaves the caches unchanged. *)
Theorem C4_timeout_serves_fresh_cache (o : string) (dc : list Rule) (req : Request)
    (now : Z) (net : Net) (cs : Caches) (e : Entry)
    (Hr : route o (runtimeCaching dc) req = Some api_cache_rule)
    (Hnet : no_answer_in 3 net)
    (He : entry_lookup (cache_get cs "api-cache") (href (url req)) = Some e)
    (Hfresh : (now <= stored_at e + 300)%Z) :
  let '(out, cs', _) := sw_handle o dc now net cs req in
  out = OResponse (resp e) /\ cs' = cs.
Proof.
  unfold sw_handle, handle. rewrite Hr. simpl.
  unfold cache_match. simpl. rewrite He. unfold fresh. simpl.
  replace (now <=? stored_at e + 300)%Z with true by (symmetry; apply Z.leb_le; lia).
  destruct net as [d r|]; simpl in Hnet |- *; [|auto].
  unfold in_time. simpl.
  replace (d <? 3)%Z with false by (symmetry; apply Z.ltb_ge; lia). auto.
Qed.

Definition api_fresh : Caches :=
  [("api-cache", [(href (url api_req), {| resp := ok_resp "users"; stored_at := 100 |})])].

Lemma C4_timeout_serves_fresh_cache_witness :
  route app_origin (runtimeCaching []) api_req = Some api_cache_rule /\
  (let '(out, cs', _) := sw_handle app_origin [] 301 (Responds 10 (ok_resp "new")) api_fresh api_req in
   out = OResponse (ok_resp "users") /\ cs' = api_fresh).
Proof.
  split; [reflexivity|].
  exact (C4_timeout_serves_fresh_cache app_origin [] api_req 301 (Responds 10 (ok_resp "new"))
           api_fresh {| resp := ok_resp "users"; stored_at := 100 |}
           eq_refl ltac:(simpl; lia) eq_refl ltac:(simpl; lia)).
Defined.

(** The network gives a strategy an answer it uses: any answer, except
    one later than NetworkFirst's timeout. *)
Definition delivered (h : Handler) (o : Options) (net : Net) : bool :=
  match net with
  | Fails => false
  | Responds d _ => match h with NetworkFirst => in_time o d | _ => true end
  end.

(** An error leaves the router only on a double miss: the network gave
    no usable answer and either no rule matched, or the matched rule had
    no fresh cache entry to offer (or is NetworkOnly) and the request is
    not a navigation, for which the fallback would be served. *)
Lemma handle_error_double_miss (o : string) (rules : list Rule) (now : Z) (net : Net)
    (cs : Caches) (req : Request) :
  outcome_of (handle o rules sw_fallbacks now net cs req) = OError ->
  (route o rules req = None /\ net = Fails) \/
  (exists r, route o rules req = Some r /\
     delivered (handler r) (options r) net = false /\
     (handler r = NetworkOnly \/ cache_match (options r) now cs (href (url req)) = None) /\
     destination req <> "document").
Proof.
  unfold outcome_of, handle. destruct (route o rules req) as [r|] eqn:Er.
  - intros H. right. exists r. split; [reflexivity|].
    destruct (exec (handler r) (options r) now net cs (href (url req)))
      as [[out cs'] evs] eqn:Ex.
    cbv beta iota zeta delta [fst] in H. rewrite with_fallback_sw in H.
    destruct out; try discriminate.
    destruct (String.eqb (destination req) "document") eqn:Ed; [discriminate|].
    apply String.eqb_neq in Ed.
    unfold exec in Ex. destruct (handler r);
      destruct (cache_match (options r) now cs (href (url req))) as [a|] eqn:Em;
      destruct net as [d b|]; try destruct (in_time (options r) d) eqn:Et;
      simpl in Ex; try discriminate; simpl; rewrite ?Et; auto.
  - intros H. left. split; [reflexivity|]. destruct net; [discriminate|reflexivity].
Qed.

Lemma with_fallback_response (fbs : list FallbackEntry) (req : Request) (r : Response) :
  with_fallback fbs req (OResponse r) = OResponse r.
Proof. destruct fbs; reflexivity. Qed.

Definition nav_users_offline : Outcome :=
  outcome_of (sw_handle app_origin [] 10 Fails [] nav_users).

(** A navigation request to an api route with no cache entry and no
    network gets the offline document, not a failure. *)
Lemma C5_navigation_double_miss_gets_fallback :
  route app_origin (runtimeCaching []) nav_users = Some api_cache_rule /\
  cache_match api_cache_options 10 [] (href (url nav_users)) = None /\
  nav_users_offline = OFallback "/offline" /\ nav_users_offline <> OError.
Proof. repeat split; [reflexivity .. | vm_compute; discriminate]. Qed.

(** (C5, amended) For a request the router hands to the NetworkFirst
    api-cache rule, with no fresh api-cache entry and no answer from the
    network within 3 seconds, the router surfaces an error, unless the
    request is a navigation, which is served [/offline].  And an error
    leaves the router only on such a double miss (no usable network
    answer, no fresh cache entry or no rule at all, no fallback). *)
Theorem C5_double_miss_error (o : string) (dc : list Rule) (req : Request)
    (now : Z) (net : Net) (cs : Caches)
    (Hr : route o (runtimeCaching dc) req = Some api_cache_rule)
    (Hmiss : cache_match api_cache_options now cs (href (url req)) = None)
    (Hnet : no_answer_in 3 net) :
  outcome_of (sw_handle o dc now net cs req) =
    (if String.eqb (destination req) "document" then OFallback "/offline" else OError) /\
  (forall rules q now' net' cs',
     outcome_of (handle o rules sw_fallbacks now' net' cs' q) = OError ->
     (route o rules q = None /\ net' = Fails) \/
     (exists r, route o rules q = Some r /\
        delivered (handler r) (options r) net' = false /\
        (handler r = NetworkOnly \/ cache_match (options r) now' cs' (href (url q)) = None) /\
        destination q <> "document")).
Proof.
  split; [|intros; apply handle_error_double_miss; assumption].
  unfold outcome_of, sw_handle, handle. rewrite Hr. simpl.
  change (options api_cache_rule) with api_cache_options.
  rewrite Hmiss.
  destruct net as [d b|]; simpl in Hnet |- *.
  - unfold in_time. simpl.
    replace (d <? 3)%Z with false by (symmetry; apply Z.ltb_ge; lia). reflexivity.
  - reflexivity.
Qed.

Lemma C5_double_miss_error_witness :
  outcome_of (sw_handle app_origin [] 10 (Responds 5 (ok_resp "late")) [] api_req) = OError.
Proof.
  destruct (C5_double_miss_error app_origin [] api_req 10 (Responds 5 (ok_resp "late")) []
              eq_refl eq_refl ltac:(simpl; lia)) as [H _].
  exact H.
Defined.

(** * CacheFirst *)

(** (C6) For a request the router hands to a CacheFirst rule (in sw.ts:
    google-fonts, jsdelivr, images), if the rule's cache holds an
    unexpired entry for the request, the router returns that entry
    unchanged whatever the network does (also with no network at all),
    leaves the caches as they are and issues no fetch: its only effect is
    the cache read. *)
Theorem C6_cache_first_hit (o : string) (dc : list Rule) (req : Request) (r : Rule)
    (now : Z) (net : Net) (cs : Caches) (e : Entry)
    (Hr : route o (runtimeCaching dc) req = Some r)
    (Hcf : handler r = CacheFirst)
    (He : entry_lookup (cache_get cs (cacheName (options r))) (href (url req)) = Some e)
    (Hfresh : fresh (options r) now e = true) :
  sw_handle o dc now net cs req = (OResponse (resp e), cs, [EvRead (cacheName (options r))]).
Proof.
  unfold sw_handle, handle. rewrite Hr, Hcf. simpl.
  unfold cache_match. rewrite He, Hfresh. reflexivity.
Qed.

Lemma own_cache_first_rules :
  filter (fun r => match handler r with CacheFirst => true | _ => false end) own_rules
  = [google_fonts_rule; jsdelivr_rule; images_rule].
Proof. reflexivity. Qed.

Definition font_req : Request := {|
  url := {| href := "https://fonts.gstatic.com/s/inter/v1/a.woff2";
            origin := "https://fonts.gstatic.com";
            pathname := "/s/inter/v1/a.woff2" |};
  destination := "font"; mode := "cors" |}.

Definition font_entry : Entry := {| resp := ok_resp "woff2"; stored_at := 0 |}.

Definition fonts_cached : Caches :=
  [("google-fonts", [(href (url font_req), font_entry)])].

Lemma C6_cache_first_hit_witness :
  sw_handle app_origin [] 1000 Fails fonts_cached font_req =
    (OResponse (ok_resp "woff2"), fonts_cached, [EvRead "google-fonts"]).
Proof.
  exact (C6_cache_first_hit app_origin [] font_req google_fonts_rule 1000 Fails
           fonts_cached font_entry eq_refl eq_refl eq_refl eq_refl).
Defined.

(** * StaleWhileRevalidate *)

Definition is_fetch (e : Event) : bool := match e with EvFetch => true | _ => false end.

Lemma entry_lookup_cons_self (key : string) (e : Entry) (c : Cache) :
  entry_lookup ((key, e) :: c) key = Some e.
Proof. simpl. rewrite String.eqb_refl. reflexivity. Qed.

(** A stored response can be read back at once. *)
Lemma cache_put_match (o : Options) (now : Z) (cs : Caches) (key : string) (b : Response) :
  cacheable o b = true ->
  (forall x, expiration o = Some x -> (0 < maxEntries x)%nat /\ (0 <= maxAgeSeconds x)%Z) ->
  cache_match o now (cache_put o now cs key b) key = Some b.
Proof.
  intros Hc Hx. unfold cache_put, cache_match. rewrite Hc.
  rewrite cache_get_set, String.eqb_refl.
  destruct (expiration o) as [x|] eqn:Ex.
  - destruct (Hx x eq_refl) as [Hn Ha].
    destruct (maxEntries x) as [|k]; [lia|]. simpl.
    rewrite String.eqb_refl. unfold fresh. rewrite Ex. simpl.
    replace (now <=? now + maxAgeSeconds x)%Z with true by (symmetry; apply Z.leb_le; lia).
    reflexivity.
  - rewrite entry_lookup_cons_self. unfold fresh. rewrite Ex. reflexivity.
Qed.

(** A stored response is read back while it is fresh. *)
Lemma cache_put_match_at (o : Options) (now now' : Z) (cs : Caches) (key : string)
    (b : Response) :
  cacheable o b = true ->
  (forall x, expiration o = Some x ->
     (0 < maxEntries x)%nat /\ (now' <= now + maxAgeSeconds x)%Z) ->
  cache_match o now' (cache_put o now cs key b) key = Some b.
Proof.
  intros Hc Hx. unfold cache_put, cache_match. rewrite Hc.
  rewrite cache_get_set, String.eqb_refl.
  destruct (expiration o) as [x|] eqn:Ex.
  - destruct (Hx x eq_refl) as [Hn Ha].
    destruct (maxEntries x) as [|k]; [lia|]. simpl.
    rewrite String.eqb_refl. unfold fresh. rewrite Ex. simpl.
    replace (now' <=? now + maxAgeSeconds x)%Z with true by (symmetry; apply Z.leb_le; lia).
    reflexivity.
  - rewrite entry_lookup_cons_self. unfold fresh. rewrite Ex. reflexivity.
Qed.

Definition script_req : Request := same_origin_req "/_next/static/app.js" "script".

Definition scripts_cached : Caches :=
  [("static-resources", [(href (url script_req), {| resp := ok_resp "A"; stored_at := 0 |})])].

(** An expired entry [A] is present in the cache, but the
    StaleWhileRevalidate route of the template waits for the network and
    returns its answer [B]. *)
Lemma C7_expired_entry_not_served :
  route app_origin init_routes script_req = Some static_resources_route /\
  entry_lookup (cache_get scripts_cached "static-resources") (href (url script_req))
    = Some {| resp := ok_resp "A"; stored_at := 0 |} /\
  outcome_of (init_handle app_origin (month_seconds + 1) (Responds 2 (ok_resp "B"))
                scripts_cached script_req) = OResponse (ok_resp "B") /\
  outcome_of (init_handle app_origin (month_seconds + 1) (Responds 2 (ok_resp "B"))
                scripts_cached script_req) <> OResponse (ok_resp "A").
Proof. repeat split; [reflexivity .. | vm_compute; discriminate]. Qed.

(** (C7, amended) For a request handled StaleWhileRevalidate whose cache
    holds a fresh (unexpired) entry [a]: the response is [a] whatever the
    network does (it does not wait for the network); when the network
    answers [b], the background fetch refreshes the cache to [b], and an
    identical request at any time while [b] is fresh, i.e. within
    [maxAgeSeconds] of the refresh, returns [b] whatever the network does.
    With no fresh entry the router waits for the network, fetching exactly
    once, and returns its answer.  The rule stores every status (no
    [cacheableResponse]) and its expiration, if any, keeps at least one
    entry. *)
Theorem C7_stale_while_revalidate_fresh (o : string) (rules : list Rule)
    (fbs : list FallbackEntry) (req : Request) (r : Rule) (now : Z) (cs : Caches)
    (a b : Response) (d : Z)
    (Hr : route o rules req = Some r) (Hswr : handler r = StaleWhileRevalidate)
    (Hcr : cacheableResponse (options r) = None)
    (Hx : forall x, expiration (options r) = Some x -> (0 < maxEntries x)%nat)
    (Ha : cache_match (options r) now cs (href (url req)) = Some a) :
  (forall net, outcome_of (handle o rules fbs now net cs req) = OResponse a) /\
  (let cs1 := snd (fst (handle o rules fbs now (Responds d b) cs req)) in
   forall now', (forall x, expiration (options r) = Some x ->
                  (now' <= now + maxAgeSeconds x)%Z) ->
   cache_match (options r) now' cs1 (href (url req)) = Some b /\
   forall net', outcome_of (handle o rules fbs now' net' cs1 req) = OResponse b) /\
  (forall now0 cs0 d0 b0,
     cache_match (options r) now0 cs0 (href (url req)) = None ->
     let '(out, _, evs) := handle o rules fbs now0 (Responds d0 b0) cs0 req in
     out = OResponse b0 /\ length (filter is_fetch evs) = 1%nat).
Proof.
  assert (Hc : forall x, cacheable (options r) x = true)
    by (intros x; unfold cacheable; rewrite Hcr; reflexivity).
  assert (Hhit : forall t cs' net a', cache_match (options r) t cs' (href (url req)) = Some a' ->
            outcome_of (handle o rules fbs t net cs' req) = OResponse a').
  { intros t cs' net a' Ha'. unfold outcome_of, handle. rewrite Hr, Hswr. simpl.
    rewrite Ha'. destruct net; simpl; apply with_fallback_response. }
  split; [intros net; apply Hhit; exact Ha|].
  split.
  - assert (Hcs1 : snd (fst (handle o rules fbs now (Responds d b) cs req)) =
                   cache_put (options r) now cs (href (url req)) b).
    { unfold handle. rewrite Hr, Hswr. simpl. rewrite Ha. reflexivity. }
    cbv zeta. rewrite Hcs1. intros now' Hnow'.
    assert (Hb : cache_match (options r) now'
                   (cache_put (options r) now cs (href (url req)) b) (href (url req)) = Some b).
    { apply cache_put_match_at; [apply Hc|].
      intros x Ex. split; [exact (Hx x Ex) | exact (Hnow' x Ex)]. }
    split; [exact Hb|]. intros net'. apply Hhit. exact Hb.
  - intros now0 cs0 d0 b0 H0. unfold handle. rewrite Hr, Hswr. simpl. rewrite H0.
    unfold write_ev. rewrite Hc. simpl. rewrite with_fallback_response. auto.
Qed.

Lemma C7_stale_while_revalidate_fresh_witness :
  outcome_of (init_handle app_origin 5 (Responds 2 (ok_resp "B")) scripts_cached script_req)
    = OResponse (ok_resp "A") /\
  outcome_of (init_handle app_origin 100000 Fails
     (snd (fst (init_handle app_origin 5 (Responds 2 (ok_resp "B")) scripts_cached script_req)))
     script_req) = OResponse (ok_resp "B").
Proof.
  destruct (C7_stale_while_revalidate_fresh app_origin init_routes [] script_req
              static_resources_route 5 scripts_cached (ok_resp "A") (ok_resp "B") 2
              eq_refl eq_refl eq_refl
              ltac:(intros x Hx; injection Hx as <-; simpl; lia)
              eq_refl) as (H1 & H2 & _).
  split; [apply H1|].
  cbv zeta in H2. apply (H2 100000%Z ltac:(intros x Hx; injection Hx as <-; unfold month_seconds; simpl; lia)).
Defined.

(** * The api-cache and images matchers *)

(** The api-cache matcher, as one boolean formula. *)
Lemma api_cache_urlPattern_eq (o : string) (u : URL) :
  api_cache_urlPattern o u =
    String.eqb o (origin u) && negb (startsWith (pathname u) "/api/auth/")
    && startsWith (pathname u) "/api/".
Proof.
  unfold api_cache_urlPattern.
  destruct (String.eqb o (origin u)); simpl; [|reflexivity].
  destruct (startsWith (pathname u) "/api/auth/"), (startsWith (pathname u) "/api/");
    reflexivity.
Qed.

Definition ev_eqb (e1 e2 : Event) : bool :=
  match e1, e2 with
  | EvFetch, EvFetch => true
  | EvRead a, EvRead b | EvWrite a, EvWrite b => String.eqb a b
  | _, _ => false
  end.

(** (C8) The exclusion needs the trailing slash: the api-cache matcher
    rejects exactly the same-origin pathnames that start with
    [/api/auth/], so it holds for a same-origin [/api/auth], which the
    rules sw.ts writes hand to the NetworkFirst api-cache rule: a timely
    200 answer is written into [api-cache].  In the configured list the
    library's [apis] entry comes first (no default entry before it
    matching) and takes the request: [api-cache] is neither read nor
    written, whatever the network does. *)
Theorem C8_api_auth_shadowed_by_defaultCache (o : string) (pre post : list Rule)
    (req : Request) (now d : Z) (b : Response) (cs : Caches)
    (Ho : origin (url req) = o) (Hp : pathname (url req) = "/api/auth")
    (Hh : cdn_host (href (url req)) = false)
    (Hpre : Forall (fun r => urlPattern r o req = false) pre)
    (Hd : (d < 3)%Z) (Hb : status b = 200%Z) :
  (forall u, api_cache_urlPattern o u =
     String.eqb o (origin u) && negb (startsWith (pathname u) "/api/auth/")
     && startsWith (pathname u) "/api/") /\
  api_cache_urlPattern o (url req) = true /\
  route o own_rules req = Some api_cache_rule /\
  (let '(out, cs', evs) := handle o own_rules sw_fallbacks now (Responds d b) cs req in
   out = OResponse b /\
   entry_lookup (cache_get cs' "api-cache") (href (url req)) =
     Some {| resp := b; stored_at := now |} /\
   existsb (ev_eqb (EvWrite "api-cache")) evs = true) /\
  route o (runtimeCaching (pre ++ defaultCache_apis :: post)) req = Some defaultCache_apis /\
  (forall net,
     let '(_, cs', evs) := sw_handle o (pre ++ defaultCache_apis :: post) now net cs req in
     cache_get cs' "api-cache" = cache_get cs "api-cache" /\
     forallb (fun e => negb (touches "api-cache" e)) evs = true).
Proof.
  assert (Hm : api_cache_urlPattern o (url req) = true).
  { rewrite api_cache_urlPattern_eq, Ho, Hp, String.eqb_refl. reflexivity. }
  assert (Hr : route o own_rules req = Some api_cache_rule).
  { unfold cdn_host in Hh. apply orb_false_elim in Hh as [Hf Hj].
    simpl. rewrite Hf, Hj. simpl in Hm. rewrite Hm. reflexivity. }
  assert (Hl : route o (runtimeCaching (pre ++ defaultCache_apis :: post)) req
               = Some defaultCache_apis).
  { apply route_defaultCache_apis; [exact Hpre|].
    apply defaultCache_apis_matches; [exact Ho | rewrite Hp; reflexivity
                                      | rewrite Hp; reflexivity]. }
  split; [exact (api_cache_urlPattern_eq o)|].
  split; [exact Hm|]. split; [exact Hr|].
  split.
  - unfold handle. rewrite Hr. simpl.
    unfold in_time. simpl.
    replace (d <? 3)%Z with true by (symmetry; apply Z.ltb_lt; lia).
    unfold cache_put, write_ev, cacheable. simpl. rewrite Hb. simpl.
    rewrite cache_get_set. simpl. rewrite String.eqb_refl. auto.
  - split; [exact Hl|].
    intros net. unfold sw_handle.
    apply handle_other. intros r' Hr'. rewrite Hl in Hr'. injection Hr' as <-.
    simpl. discriminate.
Qed.

Lemma C8_api_auth_shadowed_by_defaultCache_witness :
  let req := same_origin_req "/api/auth" "" in
  route app_origin own_rules req = Some api_cache_rule /\
  route app_origin (runtimeCaching [defaultCache_apis]) req = Some defaultCache_apis /\
  (let '(_, cs', _) := sw_handle app_origin [defaultCache_apis] 0 (Responds 1 (ok_resp "s")) [] req in
   cache_get cs' "api-cache" = []).
Proof.
  intros req.
  destruct (C8_api_auth_shadowed_by_defaultCache app_origin [] [] req 0 1 (ok_resp "s") []
              eq_refl eq_refl eq_refl (Forall_nil _) ltac:(lia) eq_refl)
    as (_ & _ & Hr & _ & Hl & H).
  split; [exact Hr|]. split; [exact Hl|].
  specialize (H (Responds 1 (ok_resp "s"))).
  change ([] ++ [defaultCache_apis]) with [defaultCache_apis] in H.
  destruct (sw_handle app_origin [defaultCache_apis] 0 (Responds 1 (ok_resp "s")) [] req)
    as [[out cs'] evs].
  exact (proj1 H).
Defined.

Lemma string_append_nil_r (s : string) : String.append s EmptyString = s.
Proof. induction s as [|c s IH]; simpl; [reflexivity | rewrite IH; reflexivity]. Qed.

Lemma string_append_assoc (a b c : string) :
  String.append (String.append a b) c = String.append a (String.append b c).
Proof. induction a as [|x a IH]; simpl; [reflexivity | rewrite IH; reflexivity]. Qed.

Lemma string_rev_append (a b : string) :
  string_rev (String.append a b) = String.append (string_rev b) (string_rev a).
Proof.
  induction a as [|c a IH]; simpl.
  - rewrite string_append_nil_r. reflexivity.
  - rewrite IH, string_append_assoc. reflexivity.
Qed.

Lemma prefix_append (a c : string) : String.prefix a (String.append a c) = true.
Proof.
  induction a as [|x a IH]; simpl; [destruct c; reflexivity|].
  destruct (ascii_dec x x) as [_|n]; [exact IH | contradiction n; reflexivity].
Qed.

Lemma ascii_lower_idem (c : ascii) : ascii_lower (ascii_lower c) = ascii_lower c.
Proof. destruct c as [[] [] [] [] [] [] [] []]; vm_compute; reflexivity. Qed.

Lemma lower_idem (s : string) : lower (lower s) = lower s.
Proof. induction s as [|c s IH]; simpl; [reflexivity | rewrite ascii_lower_idem, IH; reflexivity]. Qed.

(** (C9) The images matcher is case-sensitive on the extension: for the
    same prefix [p], a same-origin pathname [p ++ ".png"] matches it and
    [p ++ ".PNG"] does not; the google-fonts pattern, with its [i] flag,
    ignores case. *)
Theorem C9_images_case_sensitive (o p : string) (u1 u2 : URL)
    (H1o : origin u1 = o) (H1p : pathname u1 = String.append p ".png")
    (H2o : origin u2 = o) (H2p : pathname u2 = String.append p ".PNG") :
  images_urlPattern o u1 = true /\
  images_urlPattern o u2 = false /\
  (forall s, google_fonts_re s = google_fonts_re (lower s)).
Proof.
  split; [|split].
  - unfold images_urlPattern. rewrite H1o, String.eqb_refl, H1p. simpl.
    unfold image_re, endsWith. simpl. rewrite string_rev_append. simpl.
    destruct (string_rev p); reflexivity.
  - unfold images_urlPattern. rewrite H2o, String.eqb_refl, H2p. simpl.
    unfold image_re, endsWith. rewrite string_rev_append. reflexivity.
  - intros s. unfold google_fonts_re. rewrite lower_idem. reflexivity.
Qed.

Lemma C9_images_case_sensitive_witness :
  images_urlPattern app_origin (url (same_origin_req "/icons/logo.png" "image")) = true /\
  images_urlPattern app_origin (url (same_origin_req "/icons/logo.PNG" "image")) = false.
Proof.
  destruct (C9_images_case_sensitive app_origin "/icons/logo"
              (url (same_origin_req "/icons/logo.png" "image"))
              (url (same_origin_req "/icons/logo.PNG" "image"))
              eq_refl eq_refl eq_refl eq_refl) as (H1 & H2 & _).
  split; assumption.
Defined.

(** * The api-cache only holds status 0 or 200 *)

Definition ok_status (ke : string * Entry) : Prop :=
  status (resp (snd ke)) = 0%Z \/ status (resp (snd ke)) = 200%Z.

Definition api_ok (cs : Caches) : Prop := Forall ok_status (cache_get cs "api-cache").

(** A strategy's cache storage afterwards: unchanged, or one put. *)
Lemma exec_state (h : Handler) (o : Options) (now : Z) (net : Net) (cs : Caches)
    (key : string) :
  snd (fst (exec h o now net cs key)) = cs \/
  exists x, snd (fst (exec h o now net cs key)) = cache_put o now cs key x.
Proof.
  unfold exec. destruct h;
    [destruct (cache_match o now cs key) as [a|] | | destruct (cache_match o now cs key) as [a|] | ];
    destruct net as [d r|];
    try destruct (in_time o d);
    try destruct (cache_match o now cs key) as [a|];
    simpl; eauto.
Qed.

Lemma Forall_filter_sub {A} (P : A -> Prop) (f : A -> bool) (l : list A) :
  Forall P l -> Forall P (filter f l).
Proof.
  induction 1 as [|x l Hx _ IH]; simpl; [constructor|].
  destruct (f x); [constructor|]; assumption.
Qed.

Lemma Forall_firstn {A} (P : A -> Prop) (k : nat) (l : list A) :
  Forall P l -> Forall P (firstn k l).
Proof.
  intros H. revert k. induction H as [|x l Hx _ IH]; intros [|k]; simpl; auto.
Qed.

(** A put through the api-cache options keeps the invariant. *)
Lemma cache_put_api_ok (now : Z) (cs : Caches) (key : string) (r : Response) :
  api_ok cs -> api_ok (cache_put api_cache_options now cs key r).
Proof.
  unfold api_ok, cache_put. intros H.
  destruct (cacheable api_cache_options r) eqn:Hc; [|exact H].
  rewrite cache_get_set.
  change (cacheName api_cache_options) with "api-cache". rewrite String.eqb_refl.
  change (expiration api_cache_options)
    with (Some {| maxEntries := 50; maxAgeSeconds := 60 * 5 |}).
  cbv beta iota. apply Forall_firstn. constructor.
  - unfold cacheable in Hc. simpl in Hc. unfold ok_status. simpl.
    destruct (Z.eqb_spec (status r) 0); [auto|].
    destruct (Z.eqb_spec (status r) 200); [auto|discriminate].
  - unfold entry_remove. apply Forall_filter_sub. exact H.
Qed.

(** Only the api-cache rule names the api-cache in the configuration. *)
Lemma api_cache_named_rule (dc : list Rule) (r : Rule) :
  Forall (fun r => cacheName (options r) <> "api-cache") dc ->
  In r (runtimeCaching dc) -> cacheName (options r) = "api-cache" -> r = api_cache_rule.
Proof.
  intros Hdc Hin Hn. apply in_app_or in Hin as [Hin|Hin].
  - rewrite Forall_forall in Hdc. contradiction (Hdc r Hin).
  - simpl in Hin. destruct Hin as [<-|[<-|[<-|[<-|[]]]]]; try discriminate; reflexivity.
Qed.

Lemma sw_handle_api_ok (o : string) (dc : list Rule) (now : Z) (net : Net) (cs : Caches)
    (req : Request) :
  Forall (fun r => cacheName (options r) <> "api-cache") dc ->
  api_ok cs -> api_ok (snd (fst (sw_handle o dc now net cs req))).
Proof.
  intros Hdc H. unfold sw_handle.
  destruct (route o (runtimeCaching dc) req) as [r|] eqn:Er.
  - destruct (String.eqb_spec (cacheName (options r)) "api-cache") as [Hn|Hn].
    + apply route_in in Er as Hin. destruct Hin as [Hin _].
      pose proof (api_cache_named_rule dc r Hdc Hin Hn) as ->.
      unfold handle. rewrite Er.
      destruct (exec_state (handler api_cache_rule) (options api_cache_rule) now net cs
                  (href (url req))) as [Hs|[x Hs]];
      destruct (exec (handler api_cache_rule) (options api_cache_rule) now net cs
                  (href (url req))) as [[out cs'] evs];
      simpl in Hs |- *; subst cs'; [exact H | apply cache_put_api_ok; exact H].
    + pose proof (handle_other o (runtimeCaching dc) sw_fallbacks now net cs req "api-cache")
        as Hh.
      destruct (handle o (runtimeCaching dc) sw_fallbacks now net cs req)
        as [[out cs'] evs].
      destruct Hh as [Hc _]; [intros r' Hr'; rewrite Er in Hr'; injection Hr' as <-; exact Hn|].
      unfold api_ok. simpl. rewrite Hc. exact H.
  - unfold handle. rewrite Er. destruct net; exact H.
Qed.

(** (C10) Every response in the api-cache has status 0 or 200: the empty
    storage satisfies it; storing a response with another status (404,
    500, ...) through the api-cache rule leaves the storage unchanged; and
    every request, and every sequence of requests, through the router
    keeps it (the library's [defaultCache] rules name other caches). *)
Theorem C10_api_cache_statuses (o : string) (dc : list Rule)
    (Hdc : Forall (fun r => cacheName (options r) <> "api-cache") dc) :
  api_ok [] /\
  (forall now cs key r, status r <> 0%Z -> status r <> 200%Z ->
     cache_put api_cache_options now cs key r = cs) /\
  (forall now net cs req, api_ok cs -> api_ok (snd (fst (sw_handle o dc now net cs req)))) /\
  (forall steps cs, api_ok cs ->
     api_ok (snd (fst (run o (runtimeCaching dc) sw_fallbacks steps cs)))).
Proof.
  split; [constructor|]. split; [|split].
  - intros now cs key r H0 H200. unfold cache_put, cacheable. simpl.
    apply Z.eqb_neq in H0, H200. rewrite H0, H200. reflexivity.
  - intros. apply sw_handle_api_ok; assumption.
  - intros steps. induction steps as [|[[now net] req] steps IH]; intros cs H; simpl; [exact H|].
    pose proof (sw_handle_api_ok o dc now net cs req Hdc H) as H1.
    unfold sw_handle in H1.
    destruct (handle o (runtimeCaching dc) sw_fallbacks now net cs req) as [[out cs1] ev1].
    specialize (IH cs1 H1).
    destruct (run o (runtimeCaching dc) sw_fallbacks steps cs1) as [[os cs2] ev2].
    exact IH.
Qed.

Lemma C10_api_cache_statuses_witness :
  cache_put api_cache_options 0 [] "k" {| status := 404; body := "" |} = [] /\
  api_ok (snd (fst (run app_origin (runtimeCaching []) sw_fallbacks
    [(0%Z, Responds 0 {| status := 500; body := "" |}, api_req);
     (1%Z, Responds 0 (ok_resp "u"), api_req)] []))).
Proof.
  destruct (C10_api_cache_statuses app_origin [] (Forall_nil _)) as (H0 & Hput & _ & Hrun).
  split.
  - apply Hput; discriminate.
  - apply Hrun. exact H0.
Defined.

(** * Further properties of the sw.ts configuration *)

(** A cross-origin request to a host other than the font and CDN hosts
    matches none of the rules sw.ts writes: in the configured list it is
    handled by the first matching [defaultCache] rule, if any; when no
    default rule matches it, it passes through to the network and no
    cache is read or written. *)
Theorem sw_cross_origin_passthrough (o : string) (dc : list Rule) (req : Request)
    (now : Z) (net : Net) (cs : Caches)
    (Ho : origin (url req) <> o) (Hh : cdn_host (href (url req)) = false) :
  route o own_rules req = None /\
  route o (runtimeCaching dc) req = route o dc req /\
  (route o dc req = None ->
   sw_handle o dc now net cs req =
     (match net with Responds _ r => OResponse r | Fails => OError end, cs, [EvFetch])).
Proof.
  assert (Hown : route o own_rules req = None).
  { unfold cdn_host in Hh. apply orb_false_elim in Hh as [Hf Hj].
    simpl. rewrite Hf, Hj. unfold api_cache_urlPattern, images_urlPattern.
    assert (Hne : String.eqb o (origin (url req)) = false)
      by (apply String.eqb_neq; intros E; apply Ho; symmetry; exact E).
    rewrite Hne. reflexivity. }
  assert (Hr : route o (runtimeCaching dc) req = route o dc req).
  { rewrite route_runtimeCaching, Hown. destruct (route o dc req); reflexivity. }
  split; [exact Hown|]. split; [exact Hr|].
  intros Hdc. apply handle_no_route. rewrite Hr. exact Hdc.
Qed.

Definition cross_img_req : Request := {|
  url := {| href := "https://images.example.org/cat.png";
            origin := "https://images.example.org"; pathname := "/cat.png" |};
  destination := "image"; mode := "no-cors" |}.

Lemma sw_cross_origin_passthrough_witness :
  route app_origin (runtimeCaching [defaultCache_apis]) cross_img_req = None /\
  sw_handle app_origin [defaultCache_apis] 0 Fails [] cross_img_req = (OError, [], [EvFetch]).
Proof.
  destruct (sw_cross_origin_passthrough app_origin [defaultCache_apis] cross_img_req 0 Fails []
              ltac:(discriminate) eq_refl) as (_ & Hr & H).
  split; [rewrite Hr; reflexivity|].
  exact (H eq_refl).
Defined.

(** Among the rules sw.ts writes, which the configured list tries after
    the [defaultCache] rules, the api-cache rule comes before the images
    rule: a same-origin [/api/] path outside [/api/auth/] goes to the
    api-cache even when it ends in an image extension, while a path under
    [/api/auth/] goes to the images rule exactly when it ends in an image
    extension.  A request reaches these rules when no default rule
    matches it. *)
Theorem sw_api_rule_before_images (o : string) (dc : list Rule) (req : Request)
    (Ho : origin (url req) = o) (Hh : cdn_host (href (url req)) = false) :
  route o (runtimeCaching dc) req =
    match route o dc req with Some r => Some r | None => route o own_rules req end /\
  (startsWith (pathname (url req)) "/api/" = true ->
   startsWith (pathname (url req)) "/api/auth/" = false ->
   route o own_rules req = Some api_cache_rule) /\
  (startsWith (pathname (url req)) "/api/auth/" = true ->
   route o own_rules req =
     if image_re (pathname (url req)) then Some images_rule else None).
Proof.
  split; [apply route_runtimeCaching|].
  unfold cdn_host in Hh. apply orb_false_elim in Hh as [Hf Hj].
  simpl. rewrite Hf, Hj. unfold api_cache_urlPattern, images_urlPattern.
  rewrite Ho, String.eqb_refl. simpl.
  split.
  - intros Ha Hn. rewrite Hn, Ha. reflexivity.
  - intros Ha. rewrite Ha. destruct (image_re (pathname (url req))); reflexivity.
Qed.

Lemma sw_api_rule_before_images_witness :
  route app_origin own_rules (same_origin_req "/api/avatar.png" "image")
    = Some api_cache_rule /\
  route app_origin own_rules (same_origin_req "/api/auth/avatar.png" "image")
    = Some images_rule /\
  route app_origin (runtimeCaching []) (same_origin_req "/api/auth/avatar.png" "image")
    = Some images_rule.
Proof.
  split; [|split].
  - apply (sw_api_rule_before_images app_origin [] (same_origin_req "/api/avatar.png" "image")
             eq_refl eq_refl); reflexivity.
  - exact (proj2 (proj2 (sw_api_rule_before_images app_origin []
             (same_origin_req "/api/auth/avatar.png" "image")
             eq_refl eq_refl)) eq_refl).
  - rewrite (proj1 (sw_api_rule_before_images app_origin []
             (same_origin_req "/api/auth/avatar.png" "image") eq_refl eq_refl)).
    reflexivity.
Defined.

Lemma exec_no_fallback (h : Handler) (o : Options) (now : Z) (net : Net) (cs : Caches)
    (key u : string) :
  fst (fst (exec h o now net cs key)) <> OFallback u.
Proof.
  unfold exec. destruct h;
    [destruct (cache_match o now cs key) as [a|] | | destruct (cache_match o now cs key) as [a|] | ];
    destruct net as [d r|];
    try destruct (in_time o d);
    try destruct (cache_match o now cs key) as [a|];
    simpl; discriminate.
Qed.

(** The only fallback the service worker serves is [/offline], and only to
    a request with destination [document] that some rule handled. *)
Theorem sw_fallback_only_offline_documents (o : string) (dc : list Rule) (now : Z)
    (net : Net) (cs : Caches) (req : Request) (u : string)
    (H : outcome_of (sw_handle o dc now net cs req) = OFallback u) :
  u = "/offline" /\ destination req = "document" /\
  exists r, route o (runtimeCaching dc) req = Some r.
Proof.
  unfold outcome_of, sw_handle, handle in H.
  destruct (route o (runtimeCaching dc) req) as [r|] eqn:Er.
  - pose proof (exec_no_fallback (handler r) (options r) now net cs (href (url req))) as Hx.
    destruct (exec (handler r) (options r) now net cs (href (url req)))
      as [[out cs'] evs].
    cbv beta iota zeta delta [fst] in H, Hx. rewrite with_fallback_sw in H.
    destruct out as [a|u0|]; try discriminate; [contradiction (Hx u0 eq_refl)|].
    destruct (String.eqb (destination req) "document") eqn:Ed; [|discriminate].
    injection H as <-. apply String.eqb_eq in Ed. eauto.
  - destruct net; discriminate.
Qed.

Lemma sw_fallback_only_offline_documents_witness :
  outcome_of (sw_handle app_origin [] 10 Fails [] nav_users) = OFallback "/offline" /\
  destination nav_users = "document".
Proof.
  assert (H : outcome_of (sw_handle app_origin [] 10 Fails [] nav_users) = OFallback "/offline")
    by reflexivity.
  split; [exact H|].
  exact (proj1 (proj2 (sw_fallback_only_offline_documents app_origin [] 10 Fails [] nav_users
                         "/offline" H))).
Defined.

(** An api-cache answer within the 3 s timeout is returned to the page
    whatever its status; it is stored (under the request URL, with the
    current time) when its status is 0 or 200, and otherwise the storage
    is left as it was. *)
Theorem sw_api_timely_answer (o : string) (dc : list Rule) (req : Request)
    (now d : Z) (b : Response) (cs : Caches)
    (Hr : route o (runtimeCaching dc) req = Some api_cache_rule) (Hd : (d < 3)%Z) :
  let '(out, cs', _) := sw_handle o dc now (Responds d b) cs req in
  out = OResponse b /\
  (if existsb (Z.eqb (status b)) [0%Z; 200%Z]
   then entry_lookup (cache_get cs' "api-cache") (href (url req)) =
          Some {| resp := b; stored_at := now |}
   else cs' = cs).
Proof.
  unfold sw_handle, handle. rewrite Hr. simpl. unfold in_time. simpl.
  replace (d <? 3)%Z with true by (symmetry; apply Z.ltb_lt; lia). simpl.
  split; [reflexivity|].
  unfold cache_put, cacheable. simpl.
  destruct (status b =? 0)%Z, (status b =? 200)%Z; simpl; try reflexivity;
    rewrite cache_get_set; simpl; rewrite String.eqb_refl; reflexivity.
Qed.

Lemma sw_api_timely_answer_witness :
  let '(out, cs', _) :=
    sw_handle app_origin [] 0 (Responds 1 {| status := 404; body := "" |}) [] api_req in
  out = OResponse {| status := 404; body := "" |} /\ cs' = [].
Proof.
  exact (sw_api_timely_answer app_origin [] api_req 0 1 {| status := 404; body := "" |} []
           eq_refl ltac:(lia)).
Defined.

(** * Storage invariants: count limits and unique keys *)

(** After one request the storage is unchanged or has had one put through
    the options of the rule that handled it. *)
Lemma handle_state (o : string) (rules : list Rule) (fbs : list FallbackEntry)
    (now : Z) (net : Net) (cs : Caches) (req : Request) :
  snd (fst (handle o rules fbs now net cs req)) = cs \/
  exists r x, route o rules req = Some r /\
    snd (fst (handle o rules fbs now net cs req)) =
      cache_put (options r) now cs (href (url req)) x.
Proof.
  unfold handle. destruct (route o rules req) as [r|] eqn:Er.
  - destruct (exec_state (handler r) (options r) now net cs (href (url req))) as [Hs|[x Hs]];
    destruct (exec (handler r) (options r) now net cs (href (url req))) as [[out cs'] evs];
    simpl in Hs |- *; [left; exact Hs | right; exists r, x; auto].
  - destruct net; left; reflexivity.
Qed.

Lemma cache_put_length (o : Options) (now : Z) (cs : Caches) (key : string)
    (r : Response) (x : Expiration) (k : nat) :
  expiration o = Some x -> (maxEntries x <= k)%nat ->
  (length (cache_get cs (cacheName o)) <= k)%nat ->
  (length (cache_get (cache_put o now cs key r) (cacheName o)) <= k)%nat.
Proof.
  intros Hx Hk Hl. unfold cache_put. destruct (cacheable o r); [|exact Hl].
  rewrite cache_get_set, String.eqb_refl, Hx. rewrite length_firstn. lia.
Qed.

Definition own_names : list string := ["google-fonts"; "jsdelivr"; "api-cache"; "images"].

(** Each cache of sw.ts holds at most its rule's [maxEntries] entries. *)
Definition sw_limits (cs : Caches) : Prop :=
  Forall (fun r => match expiration (options r) with
                   | Some x => (length (cache_get cs (cacheName (options r))) <= maxEntries x)%nat
                   | None => True
                   end) own_rules.

Lemma own_rules_same_name (r r' : Rule) :
  In r own_rules -> In r' own_rules ->
  cacheName (options r) = cacheName (options r') -> r = r'.
Proof.
  simpl. intros H1 H2.
  destruct H1 as [<-|[<-|[<-|[<-|[]]]]]; destruct H2 as [<-|[<-|[<-|[<-|[]]]]];
    simpl; intros E; try discriminate; reflexivity.
Qed.

(** Count eviction keeps every cache of sw.ts within its limit (at most
    10 google-fonts, 10 jsdelivr, 50 api-cache and 100 images entries),
    request after request, when the library's [defaultCache] rules use
    other cache names. *)
Theorem sw_limits_preserved (o : string) (dc : list Rule)
    (Hdc : Forall (fun r => ~ In (cacheName (options r)) own_names) dc)
    (now : Z) (net : Net) (cs : Caches) (req : Request)
    (H : sw_limits cs) :
  sw_limits (snd (fst (sw_handle o dc now net cs req))).
Proof.
  unfold sw_handle.
  destruct (handle_state o (runtimeCaching dc) sw_fallbacks now net cs req)
    as [->|(r & x & Hr & ->)]; [exact H|].
  apply route_in in Hr as [Hin _].
  unfold sw_limits in *. rewrite Forall_forall in H |- *. intros r' Hr'.
  specialize (H r' Hr').
  destruct (String.eqb_spec (cacheName (options r)) (cacheName (options r'))) as [E|E].
  - assert (Hown : In r own_rules).
    { apply in_app_or in Hin as [Hin|Hin]; [|exact Hin].
      rewrite Forall_forall in Hdc. exfalso. apply (Hdc r Hin). rewrite E.
      simpl in Hr'. destruct Hr' as [<-|[<-|[<-|[<-|[]]]]]; simpl; tauto. }
    pose proof (own_rules_same_name r r' Hown Hr' E) as <-.
    destruct (expiration (options r)) as [ex|] eqn:Ex; [|exact I].
    apply (cache_put_length _ _ _ _ _ ex); auto.
  - rewrite cache_put_other by exact E. exact H.
Qed.

Definition full_api_cache : Caches :=
  [("api-cache", map (fun i => (String.append "k" (String (ascii_of_nat (48 + i)) EmptyString),
                                {| resp := ok_resp "x"; stored_at := 0 |})) (seq 0 50))].

Lemma sw_limits_preserved_witness :
  sw_limits (snd (fst (sw_handle app_origin [] 1 (Responds 0 (ok_resp "y")) full_api_cache api_req))).
Proof.
  apply (sw_limits_preserved app_origin [] (Forall_nil _)).
  unfold sw_limits. repeat constructor; vm_compute; try lia; discriminate.
Defined.

(** * The service worker template of src/init.sh *)

(** A navigation is handled NetworkFirst in the [pages] cache with no
    timeout: any answer of the network, however slow, is what the page
    gets; and the template declares no fallback, so a failed navigation
    with no fresh [pages] entry is an error. *)
Theorem init_navigation_network_first (o : string) (req : Request) (now : Z) (cs : Caches)
    (Hnav : mode req = "navigate") :
  route o init_routes req = Some pages_route /\
  (forall d b, outcome_of (init_handle o now (Responds d b) cs req) = OResponse b) /\
  (cache_match (options pages_route) now cs (href (url req)) = None ->
   outcome_of (init_handle o now Fails cs req) = OError).
Proof.
  assert (Hr : route o init_routes req = Some pages_route)
    by (simpl; rewrite Hnav; reflexivity).
  split; [exact Hr|]. split.
  - intros d b. unfold outcome_of, init_handle, handle. rewrite Hr. reflexivity.
  - intros Hm. unfold outcome_of, init_handle, handle. rewrite Hr. simpl.
    change (options pages_route) with
      {| cacheName := "pages"; networkTimeoutSeconds := None;
         expiration := Some {| maxEntries := 10; maxAgeSeconds := month_seconds |};
         cacheableResponse := None |} in Hm.
    rewrite Hm. reflexivity.
Qed.

Lemma init_navigation_network_first_witness :
  outcome_of (init_handle app_origin 0 Fails [] (same_origin_req "/" "document")) = OError.
Proof.
  exact (proj2 (proj2 (init_navigation_network_first app_origin (same_origin_req "/" "document")
                         0 [] eq_refl)) eq_refl).
Defined.

(** Outside navigations the template routes by destination only: an
    image of any origin and any extension goes to the CacheFirst [images]
    route, and a request that is not a script, style or image passes
    through to the network with the storage untouched. *)
Theorem init_routes_by_destination (o : string) (req : Request) (now : Z) (net : Net)
    (cs : Caches) (Hnav : String.eqb (mode req) "navigate" = false) :
  (destination req = "image" -> route o init_routes req = Some images_route) /\
  (String.eqb (destination req) "script" = false ->
   String.eqb (destination req) "style" = false ->
   String.eqb (destination req) "image" = false ->
   init_handle o now net cs req =
     (match net with Responds _ r => OResponse r | Fails => OError end, cs, [EvFetch])).
Proof.
  split.
  - intros Hi. simpl. rewrite Hnav, Hi. reflexivity.
  - intros Hs Hy Hi. unfold init_handle. apply handle_no_route.
    simpl. rewrite Hnav, Hs, Hy, Hi. reflexivity.
Qed.

Lemma init_routes_by_destination_witness :
  route app_origin init_routes cross_img_req = Some images_route /\
  init_handle app_origin 0 Fails [] (same_origin_req "/data.json" "")
    = (OError, [], [EvFetch]).
Proof.
  split.
  - exact (proj1 (init_routes_by_destination app_origin cross_img_req 0 Fails [] eq_refl)
             eq_refl).
  - exact (proj2 (init_routes_by_destination app_origin (same_origin_req "/data.json" "")
                    0 Fails [] eq_refl) eq_refl eq_refl eq_refl).
Defined.

(** ** Placeholder icons written by init.sh

    [for size in 72 96 128 144 152 192 384 512] writes
    [public/icons/icon-${size}x${size}.png], served at [/icons/...]. *)

Definition icon_sizes : list string :=
  ["72"; "96"; "128"; "144"; "152"; "192"; "384"; "512"].

Definition icon_path (size : string) : string :=
  String.append "/icons/icon-" (String.append size (String.append "x" (String.append size ".png"))).

Lemma image_re_png (p : string) : image_re (String.append p ".png") = true.
Proof.
  unfold image_re, endsWith. simpl. rewrite string_rev_append. simpl.
  destruct (string_rev p); reflexivity.
Qed.

(** Every icon path the loop can write (any size, not only the eight
    listed) is a same-origin image that sw.ts caches CacheFirst in the
    [images] cache. *)
Theorem icon_paths_cached_as_images (o : string) (dc : list Rule) (size : string)
    (req : Request) (Ho : origin (url req) = o) (Hp : pathname (url req) = icon_path size)
    (Hh : cdn_host (href (url req)) = false)
    (Hdc : Forall (fun r => urlPattern r o req = false) dc) :
  route o (runtimeCaching dc) req = Some images_rule.
Proof.
  unfold runtimeCaching. rewrite route_app_skip by exact Hdc.
  unfold cdn_host in Hh. apply orb_false_elim in Hh as [Hf Hj].
  simpl. rewrite Hf, Hj. unfold api_cache_urlPattern, images_urlPattern.
  rewrite Ho, String.eqb_refl, Hp. simpl.
  unfold icon_path. rewrite <- !string_append_assoc. rewrite image_re_png. reflexivity.
Qed.

Lemma icon_paths_cached_as_images_witness :
  Forall (fun s => route app_origin (runtimeCaching []) (same_origin_req (icon_path s) "image")
                   = Some images_rule) icon_sizes.
Proof.
  apply Forall_forall. intros s _.
  exact (icon_paths_cached_as_images app_origin [] s (same_origin_req (icon_path s) "image")
           eq_refl eq_refl eq_refl (Forall_nil _)).
Defined.

(** ** The package.json scripts update of init.sh

    [packageJson.scripts = {...packageJson.scripts, 'dev': 'next dev', ...}]:
    a JavaScript object with string values, as its list of properties.
    Spreading copies the old properties ([undefined] spreads to nothing);
    each literal property then replaces the value of an existing key in
    place or is added at the end. *)

Definition Obj := list (string * string).

Fixpoint obj_get (l : Obj) (k : string) : option string :=
  match l with
  | [] => None
  | (k', v) :: l' => if String.eqb k' k then Some v else obj_get l' k
  end.

Fixpoint obj_set (l : Obj) (k v : string) : Obj :=
  match l with
  | [] => [(k, v)]
  | (k', v') :: l' => if String.eqb k' k then (k', v) :: l' else (k', v') :: obj_set l' k v
  end.

Definition init_scripts : Obj :=
  [("dev", "next dev"); ("build", "next build"); ("start", "next start");
   ("lint", "biome check ."); ("format", "biome format --write .");
   ("test", "vitest"); ("test:ui", "vitest --ui");
   ("test:e2e", "playwright test"); ("test:e2e:ui", "playwright test --ui");
   ("prepare", "husky")].

(** The object literal: the spread, then the listed properties in order. *)
Definition update_scripts (scripts : option Obj) : Obj :=
  fold_left (fun acc kv => obj_set acc (fst kv) (snd kv)) init_scripts
    (match scripts with Some l => l | None => [] end).

Lemma obj_get_set (l : Obj) (k v k' : string) :
  obj_get (obj_set l k v) k' = if String.eqb k k' then Some v else obj_get l k'.
Proof.
  induction l as [|[k0 v0] l IH]; simpl.
  - destruct (String.eqb k k'); reflexivity.
  - destruct (String.eqb_spec k0 k) as [->|Hne]; simpl.
    + destruct (String.eqb k k'); reflexivity.
    + rewrite IH. destruct (String.eqb_spec k k') as [->|]; [|reflexivity].
      apply String.eqb_neq in Hne. rewrite Hne. reflexivity.
Qed.

Lemma obj_set_keys (l : Obj) (k v : string) :
  map fst (obj_set l k v) =
    if existsb (fun kv => String.eqb (fst kv) k) l then map fst l else map fst l ++ [k].
Proof.
  induction l as [|[k0 v0] l IH]; simpl; [reflexivity|].
  destruct (String.eqb k0 k); simpl; [reflexivity|].
  rewrite IH. destruct (existsb _ l); reflexivity.
Qed.

Lemma existsb_key_in (l : Obj) (k : string) :
  existsb (fun kv => String.eqb (fst kv) k) l = false -> ~ In k (map fst l).
Proof.
  intros H Hin. apply in_map_iff in Hin as (kv & Hk & Hin).
  assert (Hb : existsb (fun kv => String.eqb (fst kv) k) l = true)
    by (apply existsb_exists; exists kv; rewrite Hk, String.eqb_refl; auto).
  congruence.
Qed.

Lemma obj_set_nodup (l : Obj) (k v : string) :
  NoDup (map fst l) -> NoDup (map fst (obj_set l k v)).
Proof.
  intros H. rewrite obj_set_keys.
  destruct (existsb (fun kv => String.eqb (fst kv) k) l) eqn:E; [exact H|].
  apply NoDup_app; [exact H | repeat constructor; simpl; tauto |].
  intros x Hx [->|[]]. exact (existsb_key_in l x E Hx).
Qed.

Lemma fold_set_get (acc new : Obj) (k : string) :
  obj_get (fold_left (fun acc kv => obj_set acc (fst kv) (snd kv)) new acc) k =
    match obj_get (rev new) k with Some v => Some v | None => obj_get acc k end.
Proof.
  revert acc. induction new as [|[k0 v0] new IH]; intros acc; simpl; [reflexivity|].
  rewrite IH, obj_get_set. clear IH.
  induction (rev new) as [|[k1 v1] r IHr]; simpl.
  - destruct (String.eqb k0 k); reflexivity.
  - destruct (String.eqb k1 k); [reflexivity | exact IHr].
Qed.

Lemma fold_set_nodup (acc new : Obj) :
  NoDup (map fst acc) ->
  NoDup (map fst (fold_left (fun acc kv => obj_set acc (fst kv) (snd kv)) new acc)).
Proof.
  revert acc. induction new as [|kv new IH]; intros acc H; simpl; [exact H|].
  apply IH, obj_set_nodup, H.
Qed.

Lemma obj_get_notin (l : Obj) (k : string) : ~ In k (map fst l) -> obj_get l k = None.
Proof.
  induction l as [|[k0 v0] l IH]; simpl; intros H; [reflexivity|].
  destruct (String.eqb_spec k0 k) as [->|_]; [exfalso; apply H; left; reflexivity|].
  apply IH. intros Hin. apply H. right. exact Hin.
Qed.

(** After the update every listed script has its listed command, every
    other script keeps its old command, the keys stay unique, and a
    package.json without [scripts] gets exactly the listed ones. *)
Theorem update_scripts_spec (scripts : option Obj)
    (Huniq : NoDup (map fst (match scripts with Some l => l | None => [] end))) :
  (forall k v, In (k, v) init_scripts -> obj_get (update_scripts scripts) k = Some v) /\
  (forall k, ~ In k (map fst init_scripts) ->
     obj_get (update_scripts scripts) k =
       obj_get (match scripts with Some l => l | None => [] end) k) /\
  NoDup (map fst (update_scripts scripts)) /\
  update_scripts None = init_scripts.
Proof.
  split; [|split; [|split]].
  - intros k v Hin. unfold update_scripts. rewrite fold_set_get.
    simpl in Hin.
    repeat destruct Hin as [Hin|Hin]; try (injection Hin as <- <-; reflexivity); contradiction.
  - intros k Hk. unfold update_scripts. rewrite fold_set_get.
    rewrite obj_get_notin; [reflexivity|].
    rewrite map_rev. intros Hin. apply Hk, in_rev, Hin.
  - apply fold_set_nodup. exact Huniq.
  - reflexivity.
Qed.

Lemma update_scripts_spec_witness :
  obj_get (update_scripts (Some [("dev", "vite"); ("postinstall", "patch")])) "dev"
    = Some "next dev" /\
  obj_get (update_scripts (Some [("dev", "vite"); ("postinstall", "patch")])) "postinstall"
    = Some "patch".
Proof.
  destruct (update_scripts_spec (Some [("dev", "vite"); ("postinstall", "patch")])
              ltac:(repeat constructor; simpl; intuition discriminate)) as (H1 & H2 & _).
  split.
  - apply H1. simpl. tauto.
  - apply H2. simpl. intuition discriminate.
Defined.
